(** * Pilot's [Hasher]: the C interface of Core/Source/Hash over SpookyHash

    [Hash.h] and [Hash.cpp] expose an incremental 128-bit hash through free
    functions on caller-owned storage:

    - [Hasher_Init] places a SpookyHash object in the storage and seeds it;
    - [Hasher_Mix_UInt8] ... [Hasher_Mix_Int64], [Hasher_Mix_UInt64_2] hand
      the bytes of a scalar to [SpookyHash::Update];
    - [Hasher_Final] reads the digest through a pointer to const.

    The SpookyHash class itself (SpookyV2.h) is not among the sources.  The
    wrappers are therefore embedded over an interface, [SpookyHash.Impl], that
    holds the three member functions [Hash.cpp] calls; the module [Model] gives
    an implementation of that interface that follows the design document. *)

From Stdlib Require Import ZArith List Lia Bool.
From stdpp Require Import base option list gmap.
Import ListNotations.

Local Open Scope Z_scope.

(** ** Scalars and their bytes in memory *)

(** Byte order of the host.  [Hash.cpp] passes [&value], so the bytes that
    reach [Update] are the object representation of the scalar on the host. *)
Inductive endianness : Set :=
  | Little
  | Big.

(** Byte [i] (counted from the least significant one) of the two's-complement
    representation of [v].  [Z.shiftr] and [Z.land] act on the infinite
    two's-complement expansion, so the definition serves signed and unsigned
    scalars alike. *)
Definition byte_of (v : Z) (i : nat) : Z :=
  Z.land (Z.shiftr v (8 * Z.of_nat i)) 255.

(** The [n] low bytes of [v], least significant first. *)
Definition le_bytes (n : nat) (v : Z) : list Z :=
  map (byte_of v) (seq 0 n).

(** The [n] bytes found at [&value] for an [n]-byte integer of value [v]. *)
Definition object_bytes (host : endianness) (n : nat) (v : Z) : list Z :=
  match host with
  | Little => le_bytes n v
  | Big => rev (le_bytes n v)
  end.

(** Reading a signed [bits]-bit integer as the unsigned integer with the same
    bit pattern. *)
Definition as_unsigned (bits : Z) (v : Z) : Z := v mod 2 ^ bits.

Definition is_byte (b : Z) : Prop := 0 <= b < 256.

(** ** The SpookyHash interface used by Hash.cpp *)

Module SpookyHash.

(** The member functions [Hash.cpp] calls on the object it finds in the
    storage.  [Init] and [Update] change the object; [Final] is called
    through [const SpookyHash*] and hands back the two output words. *)
Class Impl (T : Type) : Type := {
  Init : T -> Z -> Z -> T;
  Update : T -> list Z -> T;
  Final : T -> Z * Z
}.

End SpookyHash.

(** ** Hash.cpp *)

Section Hasher.

(** The storage [Hasher] viewed, as [get] does, as the SpookyHash object. *)
Context {Hasher : Type} `{!SpookyHash.Impl Hasher}.
Variable host : endianness.

(** [get(hasher)->Init(0, 0xc4133);]  The two [static_assert]s before the
    call are checked when the file is compiled and do nothing when it runs. *)
Definition Hasher_Init (hasher : Hasher) : Hasher :=
  SpookyHash.Init hasher 0 0xc4133.

(** [get(hasher)->Update(&value, sizeof(value));] with [sizeof(value)] 1, 2,
    4 and 8 for the four widths.  [value] is the integer the caller passes;
    [object_bytes] keeps its [sizeof(value)] low bytes, as the conversion to
    the parameter type does. *)
Definition Hasher_Mix_UInt8 (hasher : Hasher) (value : Z) : Hasher :=
  SpookyHash.Update hasher (object_bytes host 1 value).

Definition Hasher_Mix_UInt16 (hasher : Hasher) (value : Z) : Hasher :=
  SpookyHash.Update hasher (object_bytes host 2 value).

Definition Hasher_Mix_UInt32 (hasher : Hasher) (value : Z) : Hasher :=
  SpookyHash.Update hasher (object_bytes host 4 value).

Definition Hasher_Mix_UInt64 (hasher : Hasher) (value : Z) : Hasher :=
  SpookyHash.Update hasher (object_bytes host 8 value).

Definition Hasher_Mix_Int8 (hasher : Hasher) (value : Z) : Hasher :=
  SpookyHash.Update hasher (object_bytes host 1 value).

Definition Hasher_Mix_Int16 (hasher : Hasher) (value : Z) : Hasher :=
  SpookyHash.Update hasher (object_bytes host 2 value).

Definition Hasher_Mix_Int32 (hasher : Hasher) (value : Z) : Hasher :=
  SpookyHash.Update hasher (object_bytes host 4 value).

Definition Hasher_Mix_Int64 (hasher : Hasher) (value : Z) : Hasher :=
  SpookyHash.Update hasher (object_bytes host 8 value).

(** [uint64_t both[2] = { hash1, hash2 }; get(hasher)->Update(both, sizeof(both));] *)
Definition Hasher_Mix_UInt64_2 (hasher : Hasher) (hash1 hash2 : Z) : Hasher :=
  SpookyHash.Update hasher (object_bytes host 8 hash1 ++ object_bytes host 8 hash2).

(** [get(hasher)->Final(hash1, hash2);] on a [const Hasher*]: the two output
    words are the result, the storage is only read. *)
Definition Hasher_Final (hasher : Hasher) : Z * Z :=
  SpookyHash.Final hasher.

(** *** Calls and sequences of calls *)

(** One call of a mixing function, with its arguments. *)
Inductive mix_call : Set :=
  | Mix_UInt8 (value : Z)
  | Mix_UInt16 (value : Z)
  | Mix_UInt32 (value : Z)
  | Mix_UInt64 (value : Z)
  | Mix_Int8 (value : Z)
  | Mix_Int16 (value : Z)
  | Mix_Int32 (value : Z)
  | Mix_Int64 (value : Z)
  | Mix_UInt64_2 (hash1 hash2 : Z).

Definition Hasher_Mix (hasher : Hasher) (c : mix_call) : Hasher :=
  match c with
  | Mix_UInt8 v => Hasher_Mix_UInt8 hasher v
  | Mix_UInt16 v => Hasher_Mix_UInt16 hasher v
  | Mix_UInt32 v => Hasher_Mix_UInt32 hasher v
  | Mix_UInt64 v => Hasher_Mix_UInt64 hasher v
  | Mix_Int8 v => Hasher_Mix_Int8 hasher v
  | Mix_Int16 v => Hasher_Mix_Int16 hasher v
  | Mix_Int32 v => Hasher_Mix_Int32 hasher v
  | Mix_Int64 v => Hasher_Mix_Int64 hasher v
  | Mix_UInt64_2 a b => Hasher_Mix_UInt64_2 hasher a b
  end.

(** The bytes a mixing call hands to [Update], and how many they are. *)
Definition mix_bytes (c : mix_call) : list Z :=
  match c with
  | Mix_UInt8 v | Mix_Int8 v => object_bytes host 1 v
  | Mix_UInt16 v | Mix_Int16 v => object_bytes host 2 v
  | Mix_UInt32 v | Mix_Int32 v => object_bytes host 4 v
  | Mix_UInt64 v | Mix_Int64 v => object_bytes host 8 v
  | Mix_UInt64_2 a b => object_bytes host 8 a ++ object_bytes host 8 b
  end.

Definition mix_size (c : mix_call) : Z :=
  match c with
  | Mix_UInt8 _ | Mix_Int8 _ => 1
  | Mix_UInt16 _ | Mix_Int16 _ => 2
  | Mix_UInt32 _ | Mix_Int32 _ => 4
  | Mix_UInt64 _ | Mix_Int64 _ => 8
  | Mix_UInt64_2 _ _ => 16
  end.

(** The scalars a mixing call passes, each with its size in bytes, in the
    order they lie in memory. *)
Definition mix_scalars (c : mix_call) : list (nat * Z) :=
  match c with
  | Mix_UInt8 v | Mix_Int8 v => [(1%nat, v)]
  | Mix_UInt16 v | Mix_Int16 v => [(2%nat, v)]
  | Mix_UInt32 v | Mix_Int32 v => [(4%nat, v)]
  | Mix_UInt64 v | Mix_Int64 v => [(8%nat, v)]
  | Mix_UInt64_2 a b => [(8%nat, a); (8%nat, b)]
  end.

(** The byte stream of a sequence of mixing calls. *)
Definition mix_stream (cs : list mix_call) : list Z :=
  concat (map mix_bytes cs).

(** Any call of the interface. *)
Inductive call : Set :=
  | Call_Init
  | Call_Mix (c : mix_call)
  | Call_Final.

(** One call on a hasher: the storage afterwards and the digest handed
    back, if the call was [Hasher_Final]. *)
Definition exec (hasher : Hasher) (c : call) : Hasher * option (Z * Z) :=
  match c with
  | Call_Init => (Hasher_Init hasher, None)
  | Call_Mix m => (Hasher_Mix hasher m, None)
  | Call_Final => (hasher, Some (Hasher_Final hasher))
  end.

(** A sequence of calls on one hasher: the storage at the end and the
    digests produced on the way, in order. *)
Fixpoint run (hasher : Hasher) (cs : list call) : Hasher * list (Z * Z) :=
  match cs with
  | [] => (hasher, [])
  | c :: cs' =>
      let '(h1, out) := exec hasher c in
      let '(h2, outs) := run h1 cs' in
      (h2, from_option (fun d => [d]) [] out ++ outs)
  end.

Definition is_final (c : call) : bool :=
  match c with
  | Call_Final => true
  | _ => false
  end.

(** A sequence of calls with its [Hasher_Final] calls dropped. *)
Definition without_final (cs : list call) : list call :=
  List.filter (fun c => negb (is_final c)) cs.

(** States a caller can reach: [Hasher_Init] on any storage, then any of
    the other calls. *)
Inductive reachable : Hasher -> Prop :=
  | reachable_Init storage : reachable (Hasher_Init storage)
  | reachable_exec h c : reachable h -> reachable (fst (exec h c)).

(** *** Hashers behind pointers *)

(** One call through the pointer [p], in a memory that holds the caller's
    hasher objects by address.  A pointer to no hasher is outside what the
    interface defines. *)
Definition exec_at (p : Z) (c : call) (mem : gmap Z Hasher)
  : option (gmap Z Hasher * option (Z * Z)) :=
  match mem !! p with
  | Some h => let '(h', out) := exec h c in Some (<[p := h']> mem, out)
  | None => None
  end.

End Hasher.

(** ** The SpookyHash object, after the design document *)

Module Model.

(** Modelled from the spec: what the design leaves to the implementer of
    SpookyHash (SpookyV2.h and SpookyV2.cpp are not among the sources): the
    type of the running state words, the block size in bytes, the initial
    words as a function of the two seeds, the fold of one full block into the
    words, and the finalization of the words with the leftover bytes and the
    total length. *)
Record Algorithm : Type := {
  words : Type;
  block_size : nat;
  init_words : Z -> Z -> words;
  fold_block : words -> list Z -> words;
  finalize : words -> list Z -> Z -> Z * Z
}.

(** Modelled from the spec: the hasher state of section 3 (the SpookyHash
    class declaration is not among the sources): running state words, the
    pending bytes not yet folded, their count, the total number of bytes mixed
    so far, and the seed pair fixed at Init time.  The design gives the two
    counters no width; they are integers here. *)
Record State (A : Algorithm) : Type := {
  running_state : words A;
  pending : list Z;
  byte_count : Z;
  total_length : Z;
  seed_pair : Z * Z
}.

Arguments running_state {A} _.
Arguments pending {A} _.
Arguments byte_count {A} _.
Arguments total_length {A} _.
Arguments seed_pair {A} _.

Section Operations.

Variable A : Algorithm.

(** Modelled from the spec: SpookyHash::Init (not among the sources), section
    4.1: the initial running-state words are a fixed function of the two
    seeds; nothing is pending and nothing has been mixed. *)
Definition Init (seed1 seed2 : Z) : State A :=
  {| running_state := init_words A seed1 seed2;
     pending := [];
     byte_count := 0;
     total_length := 0;
     seed_pair := (seed1, seed2) |}.

(** Modelled from the spec: the flush of SpookyHash::Update (not among the
    sources), section 4.1: as long as the buffer holds a full block, that
    block is folded into the running state and only the bytes beyond it are
    kept.  [fuel] bounds the number of folds; the length of the buffer is
    enough when the block size is positive. *)
Fixpoint absorb (fuel : nat) (w : words A) (buf : list Z) : words A * list Z :=
  match fuel with
  | O => (w, buf)
  | S fuel' =>
      if (block_size A <=? length buf)%nat
      then absorb fuel' (fold_block A w (firstn (block_size A) buf))
                  (skipn (block_size A) buf)
      else (w, buf)
  end.

(** Modelled from the spec: SpookyHash::Update (not among the sources),
    section 4.1: the bytes are appended to the pending buffer, full blocks
    are folded, and the total length grows by the number of bytes appended. *)
Definition Update (s : State A) (message : list Z) : State A :=
  let buf := pending s ++ message in
  let '(w, rest) := absorb (length buf) (running_state s) buf in
  {| running_state := w;
     pending := rest;
     byte_count := Z.of_nat (length rest);
     total_length := total_length s + Z.of_nat (length message);
     seed_pair := seed_pair s |}.

(** Modelled from the spec: SpookyHash::Final (not among the sources), section
    4.1: the leftover bytes and the total length are folded into a copy of the
    running state, which is reduced to two 64-bit words; the stored state is
    only read. *)
Definition Final (s : State A) : Z * Z :=
  let '(hash1, hash2) := finalize A (running_state s) (pending s) (total_length s) in
  (hash1 mod 2 ^ 64, hash2 mod 2 ^ 64).

(** Modelled from the spec: the digest as the design states it (section 3), a
    function of the seed pair and of the ordered sequence of mixed bytes. *)
Definition digest_of (seed1 seed2 : Z) (stream : list Z) : Z * Z :=
  Final (Update (Init seed1 seed2) stream).

(** The byte count agrees with the buffer and stays below the block size. *)
Definition buffered (s : State A) : Prop :=
  byte_count s = Z.of_nat (length (pending s)) /\
  (length (pending s) < block_size A)%nat.

End Operations.

Arguments Init {A} _ _.
Arguments Update {A} _ _.
Arguments Final {A} _.
Arguments absorb {A} _ _ _.
Arguments buffered {A} _.
Arguments digest_of A _ _ _ : clear implicits.

(** The modelled object as an implementation of the interface.  [Init] writes
    every part of the state, so what the storage held before is dropped. *)
#[global] Instance impl (A : Algorithm) : SpookyHash.Impl (State A) := {|
  SpookyHash.Init := fun _ seed1 seed2 => Init seed1 seed2;
  SpookyHash.Update := Update;
  SpookyHash.Final := Final
|}.

(** A small two-lane instance with 96-byte blocks, to run the definitions on. *)
Definition sample : Algorithm := {|
  words := Z * Z;
  block_size := 96;
  init_words := fun seed1 seed2 => (seed1, seed2);
  fold_block := fun w block =>
    fold_left (fun '(a, b) x => ((b + x) mod 2 ^ 64, (a * 33 + b) mod 2 ^ 64)) block w;
  finalize := fun w rest len =>
    let '(a, b) :=
      fold_left (fun '(a, b) x => ((b + x) mod 2 ^ 64, (a * 33 + b) mod 2 ^ 64))
                (rest ++ [len]) w in
    (a, (a + b) mod 2 ^ 64)
|}.

(** An instance whose finalization ignores what was mixed: every digest is
    (0, 0).  It has the shape the design describes and none of its quality. *)
Definition blind : Algorithm := {|
  words := unit;
  block_size := 96;
  init_words := fun _ _ => tt;
  fold_block := fun w _ => w;
  finalize := fun _ _ _ => (0, 0)
|}.

(** The end-to-end example of the design on an algorithm [A]: the digests
    after seeding with [(seed1, seed2)] and mixing the given calls. *)
Definition end_to_end (A : Algorithm) (seed1 seed2 : Z) (cs : list mix_call) : Z * Z :=
  Hasher_Final (fold_left (Hasher_Mix Little) cs (Init (A:=A) seed1 seed2)).

End Model.

(** ** What Hash.cpp asks of the SpookyHash object *)

Module Recorder.

(** One call received by the object. *)
Inductive received : Set :=
  | Got_Init (seed1 seed2 : Z)
  | Got_Update (message : list Z).

(** An implementation of the interface that keeps nothing but the list of the
    calls it received, oldest first.  Running the wrappers of [Hash.cpp] on it
    shows the arguments they pass, whatever the hash does with them. *)
#[global] Instance impl : SpookyHash.Impl (list received) := {|
  SpookyHash.Init := fun log seed1 seed2 => log ++ [Got_Init seed1 seed2];
  SpookyHash.Update := fun log message => log ++ [Got_Update message];
  SpookyHash.Final := fun _ => (0, 0)
|}.

(** The calls the object is expected to receive for one call of the
    interface: [Hasher_Final] only reads, so it leaves no trace. *)
Definition asked (host : endianness) (c : call) : list received :=
  match c with
  | Call_Init => [Got_Init 0 0xc4133]
  | Call_Mix m => [Got_Update (mix_bytes host m)]
  | Call_Final => []
  end.

End Recorder.

(** ** Sample inputs *)

(** A hasher on the sample algorithm after [Hasher_Init] and 88 mixed bytes
    (five pairs and one 64-bit value), on a little-endian host. *)
Definition sample_hasher : Model.State Model.sample :=
  fst (run Little (Hasher_Init (Model.Init 9 9))
         (repeat (Call_Mix (Mix_UInt64_2 1 2)) 5 ++ [Call_Mix (Mix_UInt64 3)])).


(** ** Values, parameter types and traces *)

(** The integer whose bytes, least significant first, are [bs]. *)
Definition le_value (bs : list Z) : Z :=
  fold_right (fun b acc => b + 256 * acc) 0 bs.

(** The [n]-byte unsigned integer whose bytes are those of [v] in the
    opposite order. *)
Definition byte_swap (n : nat) (v : Z) : Z :=
  le_value (rev (le_bytes n v)).

(** The values of an [n]-byte unsigned and of an [n]-byte signed integer
    type ([uint8_t] ... [uint64_t], [int8_t] ... [int64_t] in [Hash.h]). *)
Definition in_unsigned (n : nat) (v : Z) : Prop :=
  0 <= v < 2 ^ (8 * Z.of_nat n).

Definition in_signed (n : nat) (v : Z) : Prop :=
  - 2 ^ (8 * Z.of_nat n - 1) <= v < 2 ^ (8 * Z.of_nat n - 1).

(** The arguments of a mixing call are values of its parameter types. *)
Definition well_typed (c : mix_call) : Prop :=
  match c with
  | Mix_UInt8 v => in_unsigned 1 v
  | Mix_UInt16 v => in_unsigned 2 v
  | Mix_UInt32 v => in_unsigned 4 v
  | Mix_UInt64 v => in_unsigned 8 v
  | Mix_Int8 v => in_signed 1 v
  | Mix_Int16 v => in_signed 2 v
  | Mix_Int32 v => in_signed 4 v
  | Mix_Int64 v => in_signed 8 v
  | Mix_UInt64_2 a b => in_unsigned 8 a /\ in_unsigned 8 b
  end.

(** Two calls of the same mixing function. *)
Definition same_function (c1 c2 : mix_call) : Prop :=
  match c1, c2 with
  | Mix_UInt8 _, Mix_UInt8 _
  | Mix_UInt16 _, Mix_UInt16 _
  | Mix_UInt32 _, Mix_UInt32 _
  | Mix_UInt64 _, Mix_UInt64 _
  | Mix_Int8 _, Mix_Int8 _
  | Mix_Int16 _, Mix_Int16 _
  | Mix_Int32 _, Mix_Int32 _
  | Mix_Int64 _, Mix_Int64 _
  | Mix_UInt64_2 _ _, Mix_UInt64_2 _ _ => True
  | _, _ => False
  end.


(** The mixing calls of a sequence of calls, in order. *)
Definition mix_calls_of (cs : list call) : list mix_call :=
  flat_map (fun c => match c with Call_Mix m => [m] | _ => [] end) cs.

Definition is_init (c : call) : bool :=
  match c with
  | Call_Init => true
  | _ => false
  end.

(** The bytes a recording object was handed since its last [Init]. *)
Definition bytes_since_init (log : list Recorder.received) : list Z :=
  fold_left
    (fun acc r =>
       match r with
       | Recorder.Got_Init _ _ => []
       | Recorder.Got_Update message => acc ++ message
       end)
    log [].

(** * Properties *)

(** ** Bytes *)

Lemma byte_of_testbit (v : Z) (i : nat) (k : Z) :
  0 <= k ->
  Z.testbit (byte_of v i) k = Z.testbit v (k + 8 * Z.of_nat i) && (k <? 8).
Proof.
  intros Hk. unfold byte_of.
  rewrite Z.land_spec, Z.shiftr_spec by assumption.
  change 255 with (Z.ones 8).
  rewrite Z.testbit_ones_nonneg by lia.
  reflexivity.
Qed.

Lemma byte_of_is_byte (v : Z) (i : nat) : is_byte (byte_of v i).
Proof.
  unfold is_byte, byte_of. change 255 with (Z.ones 8).
  rewrite Z.land_ones by lia.
  apply Z.mod_pos_bound. lia.
Qed.

(** The low byte of a byte is the byte. *)
Lemma byte_of_byte_of (v : Z) (i : nat) : byte_of (byte_of v i) 0 = byte_of v i.
Proof.
  apply Z.bits_inj'. intros k Hk.
  rewrite (byte_of_testbit (byte_of v i) 0 k Hk).
  replace (k + 8 * Z.of_nat 0) with k by lia.
  rewrite (byte_of_testbit v i k Hk).
  destruct (k <? 8); rewrite ?andb_true_r, ?andb_false_r; reflexivity.
Qed.

(** Bytes below the width do not see the reduction modulo [2 ^ bits]. *)
Lemma byte_of_as_unsigned (n i : nat) (v : Z) :
  (i < n)%nat ->
  byte_of (as_unsigned (8 * Z.of_nat n) v) i = byte_of v i.
Proof.
  intros Hi. apply Z.bits_inj'. intros k Hk.
  rewrite !byte_of_testbit by assumption.
  destruct (k <? 8) eqn:Hk8; rewrite ?andb_true_r, ?andb_false_r; [|reflexivity].
  apply Z.ltb_lt in Hk8. unfold as_unsigned.
  apply Z.mod_pow2_bits_low. lia.
Qed.

Lemma le_bytes_length (n : nat) (v : Z) : length (le_bytes n v) = n.
Proof. unfold le_bytes. rewrite length_map, length_seq. reflexivity. Qed.

Lemma object_bytes_length (host : endianness) (n : nat) (v : Z) :
  length (object_bytes host n v) = n.
Proof.
  destruct host; simpl; rewrite ?length_rev; apply le_bytes_length.
Qed.

Lemma le_bytes_as_unsigned (n : nat) (v : Z) :
  le_bytes n (as_unsigned (8 * Z.of_nat n) v) = le_bytes n v.
Proof.
  unfold le_bytes. apply map_ext_in. intros i Hi.
  apply in_seq in Hi. apply byte_of_as_unsigned. lia.
Qed.

Lemma object_bytes_as_unsigned (host : endianness) (n : nat) (v : Z) :
  object_bytes host n (as_unsigned (8 * Z.of_nat n) v) = object_bytes host n v.
Proof.
  destruct host; simpl; rewrite le_bytes_as_unsigned; reflexivity.
Qed.

Lemma object_bytes_is_byte (host : endianness) (n : nat) (v : Z) :
  Forall is_byte (object_bytes host n v).
Proof.
  assert (Hle : Forall is_byte (le_bytes n v)).
  { unfold le_bytes. apply Forall_map, Forall_forall. intros i _.
    apply byte_of_is_byte. }
  destruct host; simpl; [exact Hle|].
  apply Forall_rev. exact Hle.
Qed.

(** A one-byte object is the same on every host. *)
Lemma object_bytes_1 (host : endianness) (v : Z) :
  object_bytes host 1 v = [byte_of v 0].
Proof. destruct host; reflexivity. Qed.

(** ** The wrappers, for any SpookyHash object *)

Section Wrappers.

Context {Hasher : Type} `{!SpookyHash.Impl Hasher}.
Variable host : endianness.

Lemma Hasher_Mix_Update (h : Hasher) (c : mix_call) :
  Hasher_Mix host h c = SpookyHash.Update h (mix_bytes host c).
Proof. destruct c; reflexivity. Qed.

Lemma mix_bytes_length (c : mix_call) :
  Z.of_nat (length (mix_bytes host c)) = mix_size c.
Proof.
  destruct c; simpl; rewrite ?length_app, !object_bytes_length; reflexivity.
Qed.

Lemma mix_bytes_scalars (c : mix_call) :
  mix_bytes host c =
  concat (map (fun '(n, v) => object_bytes host n v) (mix_scalars c)).
Proof. destruct c; simpl; rewrite ?app_nil_r; reflexivity. Qed.

Lemma mix_bytes_is_byte (c : mix_call) : Forall is_byte (mix_bytes host c).
Proof.
  destruct c; simpl; try apply object_bytes_is_byte.
  apply Forall_app; split; apply object_bytes_is_byte.
Qed.

(** *** Sequences of calls *)

Lemma run_cons (h : Hasher) (c : call) (cs : list call) :
  run host h (c :: cs) =
  (fst (run host (fst (exec host h c)) cs),
   from_option (fun d => [d]) [] (snd (exec host h c))
     ++ snd (run host (fst (exec host h c)) cs)).
Proof.
  cbn [run]. destruct (exec host h c) as [h1 out].
  cbn [fst snd]. destruct (run host h1 cs) as [h2 outs]. reflexivity.
Qed.

Lemma run_app (cs1 cs2 : list call) (h : Hasher) :
  run host h (cs1 ++ cs2) =
  (fst (run host (fst (run host h cs1)) cs2),
   snd (run host h cs1) ++ snd (run host (fst (run host h cs1)) cs2)).
Proof.
  revert h. induction cs1 as [|c cs1 IH]; intros h.
  - simpl. destruct (run host h cs2); reflexivity.
  - rewrite <- app_comm_cons, !run_cons, IH. simpl.
    rewrite <- app_assoc. reflexivity.
Qed.

Lemma run_without_final (cs : list call) (h : Hasher) :
  fst (run host h cs) = fst (run host h (without_final cs)).
Proof.
  revert h. induction cs as [|c cs IH]; intros h; [reflexivity|].
  destruct c; unfold without_final; simpl List.filter;
    rewrite !run_cons; simpl fst; apply IH.
Qed.

Lemma reachable_run (h : Hasher) (cs : list call) :
  reachable host h -> reachable host (fst (run host h cs)).
Proof.
  revert h. induction cs as [|c cs IH]; intros h Hh; [exact Hh|].
  rewrite run_cons. simpl fst. apply IH. constructor. exact Hh.
Qed.

(** *** Hashers behind pointers *)

Lemma exec_at_Some (mem : gmap Z Hasher) (p : Z) (h : Hasher) (c : call) :
  mem !! p = Some h ->
  exec_at host p c mem =
  Some (<[p := fst (exec host h c)]> mem, snd (exec host h c)).
Proof.
  intros Hp. unfold exec_at. rewrite Hp.
  destruct (exec host h c); reflexivity.
Qed.

(** A call through [p] leaves every other object as it was. *)
Lemma exec_at_frame (mem mem' : gmap Z Hasher) (p q : Z) (c : call)
    (out : option (Z * Z)) :
  exec_at host p c mem = Some (mem', out) -> q <> p -> mem' !! q = mem !! q.
Proof.
  unfold exec_at. destruct (mem !! p) as [h|] eqn:Hp; [|discriminate].
  destruct (exec host h c) as [h' o]. intros [= <- _] Hq.
  apply lookup_insert_ne. congruence.
Qed.

(** [Hasher_Final] through [p] leaves the whole memory as it was. *)
Lemma exec_at_Final (mem : gmap Z Hasher) (p : Z) (h : Hasher) :
  mem !! p = Some h ->
  exec_at host p Call_Final mem = Some (mem, Some (Hasher_Final h)).
Proof.
  intros Hp. rewrite (exec_at_Some _ _ _ _ Hp). simpl.
  rewrite insert_id by exact Hp. reflexivity.
Qed.

End Wrappers.

(** ** The modelled object *)

Module ModelFacts.
Import Model.

Section Absorb.

Variable A : Algorithm.
Hypothesis block_size_pos : (0 < block_size A)%nat.

(** Below the block size nothing is folded. *)
Lemma absorb_short (fuel : nat) (w : words A) (buf : list Z) :
  (length buf < block_size A)%nat -> absorb fuel w buf = (w, buf).
Proof.
  intros Hlen. destruct fuel as [|fuel]; [reflexivity|]. simpl.
  destruct (Nat.leb_spec (block_size A) (length buf)); [lia|reflexivity].
Qed.

(** Once the fuel covers the buffer, more fuel changes nothing. *)
Lemma absorb_fuel (f1 : nat) :
  forall (f2 : nat) (w : words A) (buf : list Z),
    (length buf <= f1)%nat -> (length buf <= f2)%nat ->
    absorb f1 w buf = absorb f2 w buf.
Proof.
  induction f1 as [|f1 IH]; intros f2 w buf H1 H2.
  - rewrite !absorb_short by lia. reflexivity.
  - destruct f2 as [|f2].
    + rewrite !absorb_short by lia. reflexivity.
    + simpl. destruct (Nat.leb_spec (block_size A) (length buf)); [|reflexivity].
      apply IH; rewrite length_skipn; lia.
Qed.

(** What absorbing leaves behind is shorter than a block. *)
Lemma absorb_rest (fuel : nat) :
  forall (w : words A) (buf : list Z),
    (length buf <= fuel)%nat ->
    (length (snd (absorb fuel w buf)) < block_size A)%nat.
Proof.
  induction fuel as [|fuel IH]; intros w buf Hlen.
  - simpl. lia.
  - simpl. destruct (Nat.leb_spec (block_size A) (length buf)); [|simpl; lia].
    apply IH. rewrite length_skipn. lia.
Qed.

(** Absorbing is a fold over the bytes: a buffer can be absorbed in two
    parts, the leftover of the first part going in front of the second. *)
Lemma absorb_app (f1 : nat) :
  forall (f2 f3 : nat) (w : words A) (x y : list Z),
    (length x <= f1)%nat ->
    (length (snd (absorb f1 w x) ++ y) <= f2)%nat ->
    (length (x ++ y) <= f3)%nat ->
    absorb f3 w (x ++ y) =
    absorb f2 (fst (absorb f1 w x)) (snd (absorb f1 w x) ++ y).
Proof.
  induction f1 as [|f1 IH]; intros f2 f3 w x y H1 H2 H3.
  - simpl in *. apply absorb_fuel; assumption.
  - destruct (Nat.leb_spec (block_size A) (length x)) as [Hfull|Hshort].
    + assert (Hstep : absorb (S f1) w x =
                      absorb f1 (fold_block A w (firstn (block_size A) x))
                             (skipn (block_size A) x)).
      { simpl. destruct (Nat.leb_spec (block_size A) (length x)); [reflexivity|lia]. }
      rewrite Hstep in *.
      destruct f3 as [|f3]; [rewrite length_app in H3; lia|].
      simpl. rewrite length_app.
      destruct (Nat.leb_spec (block_size A) (length x + length y)); [|lia].
      rewrite take_app_le, drop_app_le by assumption.
      apply IH.
      * rewrite length_skipn. lia.
      * assumption.
      * rewrite length_app, length_skipn. rewrite length_app in H3. lia.
    + rewrite (absorb_short (S f1) w x Hshort) in H2 |- *. simpl in *.
      apply absorb_fuel; assumption.
Qed.

End Absorb.

Section State.

Variable A : Algorithm.
Hypothesis block_size_pos : (0 < block_size A)%nat.

Lemma Init_buffered (seed1 seed2 : Z) : buffered (Init (A:=A) seed1 seed2).
Proof. unfold buffered. simpl. lia. Qed.

Lemma Update_buffered (s : State A) (message : list Z) :
  buffered (Update s message).
Proof.
  unfold buffered, Update.
  pose proof (absorb_rest A block_size_pos (length (pending s ++ message))
                (running_state s) (pending s ++ message) (Nat.le_refl _)) as Hrest.
  destruct (absorb _ _ _) as [w rest]. simpl in *. lia.
Qed.

(** Mixing no bytes changes nothing. *)
Lemma Update_nil (s : State A) : buffered s -> Update s [] = s.
Proof.
  intros [Hcount Hlen]. unfold Update. rewrite app_nil_r.
  rewrite (absorb_short A) by assumption.
  destruct s as [w buf n len seeds]. simpl in *. f_equal; lia.
Qed.

(** Mixing [a] and then [b] is mixing [a ++ b]. *)
Lemma Update_app (s : State A) (a b : list Z) :
  Update (Update s a) b = Update s (a ++ b).
Proof.
  unfold Update at 1 3.
  rewrite (app_assoc (pending s) a b).
  rewrite (absorb_app A block_size_pos (length (pending s ++ a))
             (length (pending (Update s a) ++ b))
             (length ((pending s ++ a) ++ b))
             (running_state s) (pending s ++ a) b); try lia.
  - unfold Update.
    destruct (absorb (length (pending s ++ a)) (running_state s) (pending s ++ a))
      as [w1 r1]. simpl.
    destruct (absorb (length (r1 ++ b)) w1 (r1 ++ b)) as [w2 r2].
    f_equal. rewrite length_app. lia.
  - unfold Update.
    destruct (absorb (length (pending s ++ a)) (running_state s) (pending s ++ a))
      as [w1 r1]. simpl. lia.
Qed.

(** One mixing step, seen at the buffer: either the bytes fit below the
    block size and are only stored, or the first full block is folded and
    the bytes beyond it carry over. *)
Lemma Update_step (s : State A) (message : list Z) :
  let buf := pending s ++ message in
  (length buf < block_size A)%nat /\
    running_state (Update s message) = running_state s /\
    pending (Update s message) = buf
  \/
  (block_size A <= length buf)%nat /\
    (running_state (Update s message), pending (Update s message)) =
    absorb (length (skipn (block_size A) buf))
           (fold_block A (running_state s) (firstn (block_size A) buf))
           (skipn (block_size A) buf).
Proof.
  intros buf. subst buf. unfold Update.
  generalize (pending s ++ message). intros buf.
  destruct (Nat.leb_spec (block_size A) (length buf)) as [Hfull|Hshort].
  - right. split; [assumption|].
    assert (Hstep : absorb (length buf) (running_state s) buf =
                    absorb (length (skipn (block_size A) buf))
                      (fold_block A (running_state s) (firstn (block_size A) buf))
                      (skipn (block_size A) buf)).
    { destruct (length buf) as [|n] eqn:Hn; [lia|].
      simpl. rewrite Hn.
      destruct (Nat.leb_spec (block_size A) (S n)); [|lia].
      apply (absorb_fuel A block_size_pos); rewrite ?length_skipn; lia. }
    rewrite Hstep. clear Hstep. destruct (absorb _ _ _); reflexivity.
  - left. split; [assumption|].
    rewrite (absorb_short A) by assumption. simpl. split; reflexivity.
Qed.

End State.

End ModelFacts.

(** ** The calls Hash.cpp makes *)

(** A sequence of calls of the interface reaches the object as one [Init]
    with the fixed seeds per [Hasher_Init] and one [Update] per mixing call,
    carrying the bytes of its scalars. *)
Lemma run_asked (host : endianness) (cs : list call) :
  forall log : list Recorder.received,
    fst (run host log cs) = log ++ concat (map (Recorder.asked host) cs).
Proof.
  induction cs as [|c cs IH]; intros log.
  - simpl. rewrite app_nil_r. reflexivity.
  - rewrite run_cons. simpl fst. rewrite IH. simpl concat.
    rewrite app_assoc. f_equal.
    destruct c; simpl; rewrite ?Hasher_Mix_Update, ?app_nil_r; reflexivity.
Qed.

(** ** Signed and unsigned scalars *)

Lemma as_unsigned_range (bits v : Z) : 0 <= bits -> 0 <= as_unsigned bits v < 2 ^ bits.
Proof. intros Hb. unfold as_unsigned. apply Z.mod_pos_bound. lia. Qed.

(** [as_unsigned] is the usual two's-complement reading of a signed value. *)
Lemma as_unsigned_signed (bits v : Z) :
  0 < bits -> - 2 ^ (bits - 1) <= v < 2 ^ (bits - 1) ->
  as_unsigned bits v = if v <? 0 then v + 2 ^ bits else v.
Proof.
  intros Hb Hv. unfold as_unsigned.
  assert (Hpow : 2 ^ bits = 2 * 2 ^ (bits - 1)).
  { rewrite <- Z.pow_succ_r by lia. f_equal. lia. }
  destruct (Z.ltb_spec v 0).
  - rewrite <- (Z.mod_add v 1) by lia. rewrite Z.mul_1_l. apply Z.mod_small. lia.
  - apply Z.mod_small. lia.
Qed.

(** C10: for each width, the signed mixing function applied to [v] leaves the
    hasher in the same state as the unsigned one applied to the unsigned
    integer with the bit pattern of [v]; this holds for any SpookyHash object
    and on any host, since both hand the same bytes to [Update]. *)
Theorem Hasher_Mix_signed_as_unsigned {Hasher : Type} `{!SpookyHash.Impl Hasher}
    (host : endianness) (h : Hasher) (v : Z) :
  Hasher_Mix_Int8 host h v = Hasher_Mix_UInt8 host h (as_unsigned 8 v) /\
  Hasher_Mix_Int16 host h v = Hasher_Mix_UInt16 host h (as_unsigned 16 v) /\
  Hasher_Mix_Int32 host h v = Hasher_Mix_UInt32 host h (as_unsigned 32 v) /\
  Hasher_Mix_Int64 host h v = Hasher_Mix_UInt64 host h (as_unsigned 64 v).
Proof.
  unfold Hasher_Mix_Int8, Hasher_Mix_Int16, Hasher_Mix_Int32, Hasher_Mix_Int64,
    Hasher_Mix_UInt8, Hasher_Mix_UInt16, Hasher_Mix_UInt32, Hasher_Mix_UInt64.
  pose proof (object_bytes_as_unsigned host 1 v) as H1.
  pose proof (object_bytes_as_unsigned host 2 v) as H2.
  pose proof (object_bytes_as_unsigned host 4 v) as H4.
  pose proof (object_bytes_as_unsigned host 8 v) as H8.
  change (8 * Z.of_nat 1) with 8 in H1.
  change (8 * Z.of_nat 2) with 16 in H2.
  change (8 * Z.of_nat 4) with 32 in H4.
  change (8 * Z.of_nat 8) with 64 in H8.
  rewrite H1, H2, H4, H8. repeat split; reflexivity.
Qed.

(** ** Seeds *)

(** C1, as stated, fails: a caller cannot seed the hasher.  Whatever storage
    [Hasher_Init] is given, the object never receives [Init(1, 0xc4133)]. *)
Lemma Hasher_Init_never_other_seeds :
  ~ (exists storage : list Recorder.received,
       Hasher_Init storage = storage ++ [Recorder.Got_Init 1 0xc4133]).
Proof.
  intros [storage Hinit]. unfold Hasher_Init in Hinit. simpl in Hinit.
  apply app_inv_head in Hinit. discriminate Hinit.
Qed.

(** C1 (amended): [Hasher_Init] takes the storage and nothing else; it
    initializes the object there with the fixed seed pair (0, 0xc4133).  No
    sequence of calls of the interface makes the object receive an [Init]
    with any other seeds. *)
Theorem Hasher_Init_fixed_seeds {Hasher : Type} `{!SpookyHash.Impl Hasher}
    (storage : Hasher) (host : endianness) (cs : list call) (seed1 seed2 : Z) :
  In (Recorder.Got_Init seed1 seed2) (fst (run host [] cs)) ->
  Hasher_Init storage = SpookyHash.Init storage 0 0xc4133 /\
  seed1 = 0 /\ seed2 = 0xc4133.
Proof.
  intros Hin. split; [reflexivity|].
  rewrite run_asked in Hin. simpl in Hin.
  apply in_concat in Hin. destruct Hin as [asked [Hasked Hin]].
  apply in_map_iff in Hasked. destruct Hasked as [c [<- _]].
  destruct c; simpl in Hin.
  - destruct Hin as [[= <- <-]|[]]. split; reflexivity.
  - destruct Hin as [Hin|[]]. discriminate Hin.
  - destruct Hin.
Qed.

(** The object behind the sample hasher is seeded with (0, 0xc4133), and so
    is the one that records a run with two [Hasher_Init] calls. *)
Lemma Hasher_Init_fixed_seeds_sample :
  Hasher_Init sample_hasher = SpookyHash.Init sample_hasher 0 0xc4133 /\
  0 = 0 /\ 0xc4133 = 0xc4133.
Proof.
  apply (Hasher_Init_fixed_seeds sample_hasher Little
           [Call_Init; Call_Mix (Mix_UInt8 1); Call_Init] 0 0xc4133).
  simpl. left. reflexivity.
Defined.

(** ** Byte order *)

(** C6, as stated, fails on a big-endian host: mixing the 32-bit value 1 there
    hands [Update] the bytes 00 00 00 01, not the little-endian 01 00 00 00. *)
Lemma Hasher_Mix_UInt32_big_endian_host :
  Hasher_Mix_UInt32 Big ([] : list Recorder.received) 1
  <> SpookyHash.Update [] (le_bytes 4 1).
Proof. unfold Hasher_Mix_UInt32. simpl. discriminate. Qed.

(** C6 (amended): every mixing function appends the bytes of its scalars as
    they lie in the host's memory, with no byte-order conversion: on a
    little-endian host that is the little-endian representation, for every
    width; on a big-endian host it is the big-endian one. *)
Theorem Hasher_Mix_host_order {Hasher : Type} `{!SpookyHash.Impl Hasher}
    (h : Hasher) (c : mix_call) :
  Hasher_Mix Little h c =
    SpookyHash.Update h (concat (map (fun '(n, v) => le_bytes n v) (mix_scalars c))) /\
  Hasher_Mix Big h c =
    SpookyHash.Update h (concat (map (fun '(n, v) => rev (le_bytes n v)) (mix_scalars c))).
Proof.
  rewrite !Hasher_Mix_Update, !mix_bytes_scalars. split; reflexivity.
Qed.

(** ** Reading the digest *)

(** For any SpookyHash object whose [Final] only reads: the storage is the
    same after [Hasher_Final], and dropping the [Hasher_Final] calls of a
    sequence does not change the state it ends in. *)
Lemma run_Final_reads_only {Hasher : Type} `{!SpookyHash.Impl Hasher}
    (host : endianness) (h : Hasher) (cs : list call) :
  fst (exec host h Call_Final) = h /\
  run host h [Call_Final; Call_Final] = (h, [Hasher_Final h; Hasher_Final h]) /\
  fst (run host h cs) = fst (run host h (without_final cs)) /\
  snd (run host h (cs ++ [Call_Final])) =
    snd (run host h cs) ++ [Hasher_Final (fst (run host h (without_final cs)))].
Proof.
  split; [reflexivity|]. split; [reflexivity|].
  split; [apply run_without_final|].
  rewrite run_app. simpl. rewrite <- run_without_final. reflexivity.
Qed.

(** ** The hasher over the modelled object *)

Module HasherFacts.
Import Model ModelFacts.

Section Mixing.

Variable A : Algorithm.
Hypothesis block_size_pos : (0 < block_size A)%nat.
Variable host : endianness.

Lemma is_byte_low (b : Z) : is_byte b -> byte_of b 0 = b.
Proof.
  unfold is_byte, byte_of. intros Hb. change 255 with (Z.ones 8).
  rewrite Z.shiftr_0_r, Z.land_ones by lia. apply Z.mod_small. lia.
Qed.

(** Mixing bytes one by one with [Hasher_Mix_UInt8] is mixing them at once. *)
Lemma Hasher_Mix_UInt8_each (bs : list Z) :
  forall (s : State A) (x : list Z),
    Forall is_byte bs ->
    fold_left (Hasher_Mix_UInt8 host) bs (Update s x) = Update s (x ++ bs).
Proof.
  induction bs as [|b bs IH]; intros s x Hbs.
  - rewrite app_nil_r. reflexivity.
  - inversion Hbs as [|? ? Hb Hbs']; subst. simpl fold_left.
    change (Hasher_Mix_UInt8 host (Update s x) b)
      with (Update (Update s x) (object_bytes host 1 b)).
    rewrite object_bytes_1, (is_byte_low b Hb).
    rewrite (Update_app A block_size_pos), IH by assumption.
    rewrite <- app_assoc. reflexivity.
Qed.

Lemma Hasher_Mix_UInt8_all (bs : list Z) (s : State A) :
  bs <> [] -> Forall is_byte bs ->
  fold_left (Hasher_Mix_UInt8 host) bs s = Update s bs.
Proof.
  destruct bs as [|b bs]; [congruence|]. intros _ Hbs.
  inversion Hbs as [|? ? Hb Hbs']; subst. simpl fold_left.
  change (Hasher_Mix_UInt8 host s b) with (Update s (object_bytes host 1 b)).
  rewrite object_bytes_1, (is_byte_low b Hb).
  apply Hasher_Mix_UInt8_each. exact Hbs'.
Qed.

(** A scalar of at least one byte: its bytes in memory order, mixed one by
    one, are the scalar mixed at once. *)
Lemma Hasher_Mix_object_bytes (n : nat) (s : State A) (v : Z) :
  fold_left (Hasher_Mix_UInt8 host) (object_bytes host (S n) v) s =
  Update s (object_bytes host (S n) v).
Proof.
  apply Hasher_Mix_UInt8_all; [|apply object_bytes_is_byte].
  intros Hnil. apply (f_equal (@length Z)) in Hnil.
  rewrite object_bytes_length in Hnil. discriminate Hnil.
Qed.

(** A sequence of mixing calls is one [Update] with its byte stream. *)
Lemma Hasher_Mix_stream (cs : list mix_call) :
  forall (s : State A) (x : list Z),
    fold_left (Hasher_Mix host) cs (Update s x) =
    Update s (x ++ mix_stream host cs).
Proof.
  induction cs as [|c cs IH]; intros s x.
  - unfold mix_stream. simpl. rewrite app_nil_r. reflexivity.
  - simpl fold_left. rewrite Hasher_Mix_Update.
    change (SpookyHash.Update (Update s x) (mix_bytes host c))
      with (Update (Update s x) (mix_bytes host c)).
    rewrite (Update_app A block_size_pos), IH.
    unfold mix_stream. simpl. rewrite <- app_assoc. reflexivity.
Qed.

Lemma run_mix_calls (cs : list mix_call) (s : State A) :
  run host s (map Call_Mix cs) = (fold_left (Hasher_Mix host) cs s, []).
Proof.
  revert s. induction cs as [|c cs IH]; intros s; [reflexivity|].
  simpl map. rewrite run_cons, IH. reflexivity.
Qed.

Lemma reachable_buffered (h : State A) : reachable host h -> buffered h.
Proof.
  induction 1 as [storage|h c _ IH].
  - apply (Init_buffered A block_size_pos).
  - destruct c; simpl.
    + apply (Init_buffered A block_size_pos).
    + rewrite Hasher_Mix_Update. apply (Update_buffered A block_size_pos).
    + exact IH.
Qed.

End Mixing.

End HasherFacts.

(** ** Mixing is by bytes *)

(** C2: on a little-endian host, mixing a 16-, 32- or 64-bit value leaves the
    hasher in the state that mixing its bytes one at a time with
    [Hasher_Mix_UInt8], least significant byte first, leaves it in; and
    [Hasher_Mix_UInt64_2] is two [Hasher_Mix_UInt64] in a row.  Equal states
    give equal digests. *)
Theorem Hasher_Mix_bytewise (A : Model.Algorithm) (h : Model.State A) (v a b : Z) :
  (0 < Model.block_size A)%nat ->
  Hasher_Mix_UInt16 Little h v =
    Hasher_Mix_UInt8 Little (Hasher_Mix_UInt8 Little h (byte_of v 0)) (byte_of v 1) /\
  Hasher_Mix_UInt32 Little h v =
    Hasher_Mix_UInt8 Little
      (Hasher_Mix_UInt8 Little
         (Hasher_Mix_UInt8 Little (Hasher_Mix_UInt8 Little h (byte_of v 0)) (byte_of v 1))
         (byte_of v 2))
      (byte_of v 3) /\
  Hasher_Mix_UInt64 Little h v =
    fold_left (Hasher_Mix_UInt8 Little)
      [byte_of v 0; byte_of v 1; byte_of v 2; byte_of v 3;
       byte_of v 4; byte_of v 5; byte_of v 6; byte_of v 7] h /\
  Hasher_Mix_UInt64_2 Little h a b =
    Hasher_Mix_UInt64 Little (Hasher_Mix_UInt64 Little h a) b.
Proof.
  intros Hpos.
  pose proof (HasherFacts.Hasher_Mix_object_bytes A Hpos Little 1 h v) as H16.
  pose proof (HasherFacts.Hasher_Mix_object_bytes A Hpos Little 3 h v) as H32.
  pose proof (HasherFacts.Hasher_Mix_object_bytes A Hpos Little 7 h v) as H64.
  repeat split.
  - symmetry. exact H16.
  - symmetry. exact H32.
  - symmetry. exact H64.
  - unfold Hasher_Mix_UInt64_2, Hasher_Mix_UInt64. symmetry.
    apply (ModelFacts.Update_app A Hpos).
Qed.

(** The sample algorithm has a positive block size; the value 0x0201 and the
    pair (7, 42) mixed into a freshly seeded hasher there. *)
Lemma Hasher_Mix_bytewise_sample :
  (0 < Model.block_size Model.sample)%nat /\
  Hasher_Mix_UInt16 Little (Model.Init (A:=Model.sample) 0 0xc4133) 0x0201 =
    Hasher_Mix_UInt8 Little
      (Hasher_Mix_UInt8 Little (Model.Init 0 0xc4133) (byte_of 0x0201 0))
      (byte_of 0x0201 1) /\
  Hasher_Mix_UInt32 Little (Model.Init (A:=Model.sample) 0 0xc4133) 0x0201 =
    Hasher_Mix_UInt8 Little
      (Hasher_Mix_UInt8 Little
         (Hasher_Mix_UInt8 Little
            (Hasher_Mix_UInt8 Little (Model.Init 0 0xc4133) (byte_of 0x0201 0))
            (byte_of 0x0201 1))
         (byte_of 0x0201 2))
      (byte_of 0x0201 3) /\
  Hasher_Mix_UInt64 Little (Model.Init (A:=Model.sample) 0 0xc4133) 0x0201 =
    fold_left (Hasher_Mix_UInt8 Little)
      [byte_of 0x0201 0; byte_of 0x0201 1; byte_of 0x0201 2; byte_of 0x0201 3;
       byte_of 0x0201 4; byte_of 0x0201 5; byte_of 0x0201 6; byte_of 0x0201 7]
      (Model.Init 0 0xc4133) /\
  Hasher_Mix_UInt64_2 Little (Model.Init (A:=Model.sample) 0 0xc4133) 7 42 =
    Hasher_Mix_UInt64 Little (Hasher_Mix_UInt64 Little (Model.Init 0 0xc4133) 7) 42.
Proof.
  split; [simpl; lia|].
  apply (Hasher_Mix_bytewise Model.sample). simpl. lia.
Defined.

(** ** The digest *)

(** C4: the digest is a function of the seed pair and of the bytes mixed.
    A run that seeds the object and makes the mixing calls [cs1] reads the
    digest [digest_of] of the seeds and the byte stream of [cs1], whatever the
    storage held before; so does a run through [Hasher_Init], with its seed
    pair; and two runs with the same seeds whose calls carry the same byte
    stream read the same pair. *)
Theorem digest_deterministic (A : Model.Algorithm) (host : endianness)
    (storage1 storage2 : Model.State A) (seed1 seed2 : Z) (cs1 cs2 : list mix_call) :
  (0 < Model.block_size A)%nat ->
  mix_stream host cs1 = mix_stream host cs2 ->
  snd (run host (SpookyHash.Init storage1 seed1 seed2) (map Call_Mix cs1 ++ [Call_Final])) =
    [Model.digest_of A seed1 seed2 (mix_stream host cs1)] /\
  snd (run host storage1 (Call_Init :: map Call_Mix cs1 ++ [Call_Final])) =
    [Model.digest_of A 0 0xc4133 (mix_stream host cs1)] /\
  snd (run host (SpookyHash.Init storage1 seed1 seed2) (map Call_Mix cs1 ++ [Call_Final])) =
    snd (run host (SpookyHash.Init storage2 seed1 seed2) (map Call_Mix cs2 ++ [Call_Final])).
Proof.
  intros Hpos Hstream.
  assert (Hrun : forall (s1 s2 : Z) (cs : list mix_call),
             snd (run host (Model.Init (A:=A) s1 s2) (map Call_Mix cs ++ [Call_Final])) =
             [Model.digest_of A s1 s2 (mix_stream host cs)]).
  { intros s1 s2 cs. rewrite run_app, HasherFacts.run_mix_calls. simpl.
    unfold Hasher_Final, Model.digest_of. simpl. do 2 f_equal.
    rewrite <- (ModelFacts.Update_nil A Hpos (Model.Init s1 s2))
      by apply (ModelFacts.Init_buffered A Hpos).
    rewrite (HasherFacts.Hasher_Mix_stream A Hpos host cs (Model.Init s1 s2) []).
    simpl. rewrite (ModelFacts.Update_nil A Hpos (Model.Init s1 s2))
      by apply (ModelFacts.Init_buffered A Hpos).
    reflexivity. }
  split; [apply Hrun|]. split.
  - rewrite run_cons. simpl. apply Hrun.
  - change (SpookyHash.Init storage1 seed1 seed2) with (Model.Init (A:=A) seed1 seed2).
    change (SpookyHash.Init storage2 seed1 seed2) with (Model.Init (A:=A) seed1 seed2).
    rewrite !Hrun, Hstream. reflexivity.
Qed.

(** One 32-bit value and its two 16-bit halves, mixed on the sample algorithm
    into storage with different earlier contents, read the same digest. *)
Lemma digest_deterministic_sample :
  snd (run Little (SpookyHash.Init (Model.Init (A:=Model.sample) 9 9) 0 0xc4133)
         (map Call_Mix [Mix_UInt32 0x04030201] ++ [Call_Final])) =
    [Model.digest_of Model.sample 0 0xc4133 (mix_stream Little [Mix_UInt32 0x04030201])] /\
  snd (run Little (Model.Init (A:=Model.sample) 9 9)
         (Call_Init :: map Call_Mix [Mix_UInt32 0x04030201] ++ [Call_Final])) =
    [Model.digest_of Model.sample 0 0xc4133 (mix_stream Little [Mix_UInt32 0x04030201])] /\
  snd (run Little (SpookyHash.Init (Model.Init (A:=Model.sample) 9 9) 0 0xc4133)
         (map Call_Mix [Mix_UInt32 0x04030201] ++ [Call_Final])) =
  snd (run Little (SpookyHash.Init (Model.Init (A:=Model.sample) 1 2) 0 0xc4133)
         (map Call_Mix [Mix_UInt16 0x0201; Mix_Int16 0x0403] ++ [Call_Final])).
Proof.
  apply (digest_deterministic Model.sample Little).
  - simpl. lia.
  - reflexivity.
Defined.

(** ** The pending buffer *)

(** C7: in every state reached by [Hasher_Init] followed by any calls, the
    byte count is the number of pending bytes and is below the block size.
    A mixing call from such a state either stores its bytes, when they fit
    below the block size, or folds the first full block into the running
    state and carries over the bytes beyond it, folding again while a full
    block remains. *)
Theorem byte_count_below_block_size (A : Model.Algorithm) (host : endianness)
    (h : Model.State A) (c : mix_call) :
  (0 < Model.block_size A)%nat ->
  reachable host h ->
  0 <= Model.byte_count h < Z.of_nat (Model.block_size A) /\
  Model.byte_count h = Z.of_nat (length (Model.pending h)) /\
  ((length (Model.pending h ++ mix_bytes host c) < Model.block_size A)%nat /\
     Model.running_state (Hasher_Mix host h c) = Model.running_state h /\
     Model.pending (Hasher_Mix host h c) = Model.pending h ++ mix_bytes host c
   \/
   (Model.block_size A <= length (Model.pending h ++ mix_bytes host c))%nat /\
     (Model.running_state (Hasher_Mix host h c), Model.pending (Hasher_Mix host h c)) =
     Model.absorb
       (length (skipn (Model.block_size A) (Model.pending h ++ mix_bytes host c)))
       (Model.fold_block A (Model.running_state h)
          (firstn (Model.block_size A) (Model.pending h ++ mix_bytes host c)))
       (skipn (Model.block_size A) (Model.pending h ++ mix_bytes host c))).
Proof.
  intros Hpos Hreach.
  destruct (HasherFacts.reachable_buffered A Hpos host h Hreach) as [Hcount Hlen].
  split; [lia|]. split; [exact Hcount|].
  rewrite Hasher_Mix_Update.
  exact (ModelFacts.Update_step A Hpos h (mix_bytes host c)).
Qed.

(** The sample hasher holds 88 pending bytes; a pair mixed into it crosses
    the 96-byte block. *)
Lemma byte_count_below_block_size_sample :
  0 <= Model.byte_count sample_hasher < Z.of_nat (Model.block_size Model.sample) /\
  Model.byte_count sample_hasher = Z.of_nat (length (Model.pending sample_hasher)) /\
  ((length (Model.pending sample_hasher ++ mix_bytes Little (Mix_UInt64_2 7 42))
    < Model.block_size Model.sample)%nat /\
     Model.running_state (Hasher_Mix Little sample_hasher (Mix_UInt64_2 7 42)) =
       Model.running_state sample_hasher /\
     Model.pending (Hasher_Mix Little sample_hasher (Mix_UInt64_2 7 42)) =
       Model.pending sample_hasher ++ mix_bytes Little (Mix_UInt64_2 7 42)
   \/
   (Model.block_size Model.sample
    <= length (Model.pending sample_hasher ++ mix_bytes Little (Mix_UInt64_2 7 42)))%nat /\
     (Model.running_state (Hasher_Mix Little sample_hasher (Mix_UInt64_2 7 42)),
      Model.pending (Hasher_Mix Little sample_hasher (Mix_UInt64_2 7 42))) =
     Model.absorb
       (length (skipn (Model.block_size Model.sample)
                  (Model.pending sample_hasher ++ mix_bytes Little (Mix_UInt64_2 7 42))))
       (Model.fold_block Model.sample (Model.running_state sample_hasher)
          (firstn (Model.block_size Model.sample)
             (Model.pending sample_hasher ++ mix_bytes Little (Mix_UInt64_2 7 42))))
       (skipn (Model.block_size Model.sample)
          (Model.pending sample_hasher ++ mix_bytes Little (Mix_UInt64_2 7 42)))).
Proof.
  apply (byte_count_below_block_size Model.sample Little sample_hasher (Mix_UInt64_2 7 42)).
  - simpl. lia.
  - unfold sample_hasher. apply reachable_run. apply reachable_Init.
Defined.

(** With blocks of at least 16 bytes, the longest a call can mix, a mixing
    call that reaches the block size folds exactly one block. *)
Lemma Hasher_Mix_folds_once (A : Model.Algorithm) (host : endianness)
    (h : Model.State A) (c : mix_call) :
  (16 <= Model.block_size A)%nat ->
  reachable host h ->
  (Model.block_size A <= length (Model.pending h ++ mix_bytes host c))%nat ->
  Model.running_state (Hasher_Mix host h c) =
    Model.fold_block A (Model.running_state h)
      (firstn (Model.block_size A) (Model.pending h ++ mix_bytes host c)) /\
  Model.pending (Hasher_Mix host h c) =
    skipn (Model.block_size A) (Model.pending h ++ mix_bytes host c).
Proof.
  intros Hblock Hreach Hfull.
  assert (Hpos : (0 < Model.block_size A)%nat) by lia.
  destruct (HasherFacts.reachable_buffered A Hpos host h Hreach) as [_ Hlen].
  assert (Hc : (length (mix_bytes host c) <= 16)%nat).
  { pose proof (mix_bytes_length host c) as Hsize.
    destruct c; cbn [mix_size] in Hsize; lia. }
  rewrite Hasher_Mix_Update.
  destruct (ModelFacts.Update_step A Hpos h (mix_bytes host c)) as [[Hlt _]|[_ Heq]];
    [lia|].
  rewrite (ModelFacts.absorb_short A Hpos) in Heq.
  - inversion Heq. split; reflexivity.
  - rewrite length_skipn, length_app. lia.
Qed.

(** ** Mixing always succeeds *)



(** ** The end-to-end example *)

(** Whether the digest of the example (seeds 0 and 0xc4133, the 32-bit value
    42, then the 64-bit value 7) differs from the digest of the swapped order
    and from the digest under seeds 1 and 0xc4133 is decided by the mixing and
    finalization functions: on the sample algorithm both differ, on the blind
    one neither does. *)
Lemma end_to_end_depends_on_algorithm :
  (Model.end_to_end Model.sample 0 0xc4133 [Mix_UInt32 42; Mix_UInt64 7]
     <> Model.end_to_end Model.sample 0 0xc4133 [Mix_UInt64 7; Mix_UInt32 42] /\
   Model.end_to_end Model.sample 0 0xc4133 [Mix_UInt32 42; Mix_UInt64 7]
     <> Model.end_to_end Model.sample 1 0xc4133 [Mix_UInt32 42; Mix_UInt64 7]) /\
  (Model.end_to_end Model.blind 0 0xc4133 [Mix_UInt32 42; Mix_UInt64 7]
     = Model.end_to_end Model.blind 0 0xc4133 [Mix_UInt64 7; Mix_UInt32 42] /\
   Model.end_to_end Model.blind 0 0xc4133 [Mix_UInt32 42; Mix_UInt64 7]
     = Model.end_to_end Model.blind 1 0xc4133 [Mix_UInt32 42; Mix_UInt64 7]).
Proof.
  split; split; try reflexivity; vm_compute; discriminate.
Qed.

(** ** The definitions on concrete inputs *)

Example le_bytes_0x04030201 : le_bytes 4 0x04030201 = [1; 2; 3; 4].
Proof. reflexivity. Qed.

Example object_bytes_signed : object_bytes Little 4 (-2) = [254; 255; 255; 255].
Proof. reflexivity. Qed.

Example object_bytes_big : object_bytes Big 2 0x0201 = [2; 1].
Proof. reflexivity. Qed.

Example sample_hasher_counts :
  Model.byte_count sample_hasher = 88 /\ Model.total_length sample_hasher = 88 /\
  Model.running_state sample_hasher = (0, 0xc4133).
Proof. repeat split; reflexivity. Qed.

(** Sixteen more bytes cross the 96-byte block: one fold, eight bytes carry
    over, and the total length counts all 104. *)
Example sample_hasher_flush :
  let h := Hasher_Mix_UInt64_2 Little sample_hasher 7 42 in
  Model.byte_count h = 8 /\ Model.total_length h = 104 /\
  Model.pending h = [42; 0; 0; 0; 0; 0; 0; 0] /\
  Model.running_state h <> Model.running_state sample_hasher.
Proof. vm_compute. repeat split; try reflexivity. discriminate. Qed.

Example recorded_calls :
  fst (run Little [] [Call_Init; Call_Mix (Mix_UInt32 42); Call_Final;
                      Call_Mix (Mix_Int8 (-1))]) =
  [Recorder.Got_Init 0 803123; Recorder.Got_Update [42; 0; 0; 0];
   Recorder.Got_Update [255]].
Proof. reflexivity. Qed.

(** * Further properties of Hash.cpp *)

(** ** Bytes and values *)

Lemma byte_of_S (v : Z) (i : nat) : byte_of v (S i) = byte_of (Z.shiftr v 8) i.
Proof.
  unfold byte_of. rewrite Z.shiftr_shiftr by lia.
  do 2 f_equal. lia.
Qed.

Lemma le_bytes_S (n : nat) (v : Z) :
  le_bytes (S n) v = byte_of v 0 :: le_bytes n (Z.shiftr v 8).
Proof.
  unfold le_bytes. simpl seq. simpl map. f_equal.
  rewrite <- seq_shift, map_map. apply map_ext. intros i. apply byte_of_S.
Qed.

Lemma byte_of_0 (v : Z) : byte_of v 0 = v mod 256.
Proof.
  unfold byte_of. simpl Z.of_nat. rewrite Z.shiftr_0_r.
  change 255 with (Z.ones 8). rewrite Z.land_ones by lia. reflexivity.
Qed.

(** Reading the [n] low bytes of [v] back gives [v] modulo [2 ^ (8 n)]. *)
Lemma le_value_le_bytes (n : nat) :
  forall v : Z, le_value (le_bytes n v) = v mod 2 ^ (8 * Z.of_nat n).
Proof.
  induction n as [|n IH]; intros v.
  - simpl. rewrite Z.mod_1_r. reflexivity.
  - rewrite le_bytes_S. simpl le_value. fold (le_value (le_bytes n (Z.shiftr v 8))).
    rewrite IH, byte_of_0, Z.shiftr_div_pow2 by lia.
    replace (2 ^ (8 * Z.of_nat (S n))) with (256 * 2 ^ (8 * Z.of_nat n)).
    + rewrite Z.rem_mul_r by lia. reflexivity.
    + replace (8 * Z.of_nat (S n)) with (8 + 8 * Z.of_nat n) by lia.
      rewrite Z.pow_add_r by lia. reflexivity.
Qed.

(** The bytes of the value of [bs] are [bs]. *)
Lemma le_bytes_le_value (bs : list Z) :
  Forall is_byte bs -> le_bytes (length bs) (le_value bs) = bs.
Proof.
  induction 1 as [|b bs Hb _ IH]; [reflexivity|].
  simpl length. rewrite le_bytes_S. simpl le_value.
  fold (le_value bs). unfold is_byte in Hb. f_equal.
  - rewrite byte_of_0.
    replace (b + 256 * le_value bs) with (b + le_value bs * 256) by lia.
    rewrite Z.mod_add by lia. apply Z.mod_small. lia.
  - rewrite Z.shiftr_div_pow2 by lia. change (2 ^ 8) with 256.
    replace (b + 256 * le_value bs) with (b + le_value bs * 256) by lia.
    rewrite Z.div_add by lia. rewrite Z.div_small by lia. exact IH.
Qed.

Lemma le_value_range (bs : list Z) :
  Forall is_byte bs -> 0 <= le_value bs < 2 ^ (8 * Z.of_nat (length bs)).
Proof.
  induction 1 as [|b bs Hb _ IH]; [simpl; lia|].
  simpl le_value. fold (le_value bs). unfold is_byte in Hb.
  replace (8 * Z.of_nat (length (b :: bs))) with (8 + 8 * Z.of_nat (length bs))
    by (simpl length; lia).
  rewrite Z.pow_add_r by lia. change (2 ^ 8) with 256. lia.
Qed.

Lemma le_bytes_is_byte (n : nat) (v : Z) : Forall is_byte (le_bytes n v).
Proof. apply (object_bytes_is_byte Little). Qed.

(** Values of one unsigned type with the same bytes are equal. *)
Lemma le_bytes_inj_unsigned (n : nat) (v w : Z) :
  in_unsigned n v -> in_unsigned n w -> le_bytes n v = le_bytes n w -> v = w.
Proof.
  unfold in_unsigned. intros Hv Hw Hbytes.
  apply (f_equal le_value) in Hbytes.
  rewrite !le_value_le_bytes, !Z.mod_small in Hbytes by assumption.
  exact Hbytes.
Qed.

(** Values of one signed type with the same bytes are equal. *)
Lemma le_bytes_inj_signed (n : nat) (v w : Z) :
  (0 < n)%nat ->
  in_signed n v -> in_signed n w -> le_bytes n v = le_bytes n w -> v = w.
Proof.
  unfold in_signed. intros Hn Hv Hw Hbytes.
  apply (f_equal le_value) in Hbytes. rewrite !le_value_le_bytes in Hbytes.
  change (as_unsigned (8 * Z.of_nat n) v = as_unsigned (8 * Z.of_nat n) w) in Hbytes.
  rewrite !as_unsigned_signed in Hbytes by (assumption || lia).
  assert (Hpow : 2 ^ (8 * Z.of_nat n) = 2 * 2 ^ (8 * Z.of_nat n - 1)).
  { rewrite <- Z.pow_succ_r by lia. f_equal. lia. }
  destruct (Z.ltb_spec v 0), (Z.ltb_spec w 0); lia.
Qed.

Lemma object_bytes_inj_unsigned (host : endianness) (n : nat) (v w : Z) :
  in_unsigned n v -> in_unsigned n w ->
  object_bytes host n v = object_bytes host n w -> v = w.
Proof.
  intros Hv Hw Hbytes. apply (le_bytes_inj_unsigned n); try assumption.
  destruct host; simpl in Hbytes; [assumption|]. apply rev_inj. exact Hbytes.
Qed.

Lemma object_bytes_inj_signed (host : endianness) (n : nat) (v w : Z) :
  (0 < n)%nat -> in_signed n v -> in_signed n w ->
  object_bytes host n v = object_bytes host n w -> v = w.
Proof.
  intros Hn Hv Hw Hbytes. apply (le_bytes_inj_signed n); try assumption.
  destruct host; simpl in Hbytes; [assumption|]. apply rev_inj. exact Hbytes.
Qed.

Lemma mix_bytes_inj (host : endianness) (c1 c2 : mix_call) :
  well_typed c1 -> well_typed c2 -> same_function c1 c2 ->
  mix_bytes host c1 = mix_bytes host c2 -> c1 = c2.
Proof.
  intros H1 H2 Hsame Hbytes.
  destruct c1, c2; simpl in Hsame; try contradiction; simpl in H1, H2, Hbytes;
    try (f_equal; eapply object_bytes_inj_unsigned; eassumption);
    try (f_equal; eapply object_bytes_inj_signed; [|eassumption..]; lia).
  destruct H1 as [Ha1 Hb1], H2 as [Ha2 Hb2].
  apply app_inj_1 in Hbytes; [|rewrite !object_bytes_length; reflexivity].
  destruct Hbytes as [Ha Hb].
  f_equal; eapply object_bytes_inj_unsigned; eassumption.
Qed.

(** X1: two calls of the same mixing function, with arguments of its
    parameter types, make the object receive the same [Update] only if their
    arguments are equal: no value of a type is confused with another. *)
Theorem Hasher_Mix_injective (host : endianness) (log : list Recorder.received)
    (c1 c2 : mix_call) :
  well_typed c1 -> well_typed c2 -> same_function c1 c2 ->
  Hasher_Mix host log c1 = Hasher_Mix host log c2 -> c1 = c2.
Proof.
  intros H1 H2 Hsame Hmix. rewrite !Hasher_Mix_Update in Hmix. simpl in Hmix.
  apply app_inv_head in Hmix. injection Hmix as Hbytes.
  apply (mix_bytes_inj host); assumption.
Qed.

(** The signed 16-bit value -3 is a value of its type, and the call that
    mixes it on a big-endian host is told apart from every other call of
    [Hasher_Mix_Int16]. *)
Lemma Hasher_Mix_injective_sample :
  well_typed (Mix_Int16 (-3)) /\
  same_function (Mix_Int16 (-3)) (Mix_Int16 (-3)) /\
  Hasher_Mix Big ([] : list Recorder.received) (Mix_Int16 (-3)) =
    [Recorder.Got_Update [255; 253]] /\
  Mix_Int16 (-3) = Mix_Int16 (-3).
Proof.
  assert (Htyped : well_typed (Mix_Int16 (-3)))
    by (unfold well_typed, in_signed; simpl; lia).
  split; [exact Htyped|]. split; [exact I|]. split; [reflexivity|].
  apply (Hasher_Mix_injective Big [] (Mix_Int16 (-3)) (Mix_Int16 (-3)) Htyped Htyped I).
  reflexivity.
Defined.

(** ** Byte order across hosts *)

Lemma le_bytes_byte_swap (n : nat) (v : Z) :
  le_bytes n (byte_swap n v) = rev (le_bytes n v).
Proof.
  unfold byte_swap.
  rewrite <- (le_bytes_length n v) at 1. rewrite <- length_rev.
  apply le_bytes_le_value. apply Forall_rev. apply le_bytes_is_byte.
Qed.

Lemma byte_swap_range (n : nat) (v : Z) : in_unsigned n (byte_swap n v).
Proof.
  unfold in_unsigned, byte_swap.
  pose proof (le_value_range (rev (le_bytes n v))) as Hrange.
  rewrite length_rev, le_bytes_length in Hrange.
  apply Hrange. apply Forall_rev. apply le_bytes_is_byte.
Qed.

Lemma object_bytes_byte_swap (n : nat) (v : Z) :
  object_bytes Big n (byte_swap n v) = object_bytes Little n v.
Proof. simpl. rewrite le_bytes_byte_swap. apply rev_involutive. Qed.

(** X2: a one-byte mix is the same on every host; a 16-, 32- or 64-bit mix on
    a big-endian host hands [Update] the bytes a little-endian host would,
    once the caller has swapped the bytes of the value; the swapped value is
    a value of the unsigned type, and swapping twice gives the value back
    modulo the width. *)
Theorem Hasher_Mix_byte_swapped {Hasher : Type} `{!SpookyHash.Impl Hasher}
    (h : Hasher) (v : Z) :
  Hasher_Mix_UInt8 Big h v = Hasher_Mix_UInt8 Little h v /\
  Hasher_Mix_UInt16 Big h (byte_swap 2 v) = Hasher_Mix_UInt16 Little h v /\
  Hasher_Mix_UInt32 Big h (byte_swap 4 v) = Hasher_Mix_UInt32 Little h v /\
  Hasher_Mix_UInt64 Big h (byte_swap 8 v) = Hasher_Mix_UInt64 Little h v /\
  (in_unsigned 2 (byte_swap 2 v) /\ in_unsigned 4 (byte_swap 4 v) /\
   in_unsigned 8 (byte_swap 8 v)) /\
  (byte_swap 2 (byte_swap 2 v) = as_unsigned 16 v /\
   byte_swap 4 (byte_swap 4 v) = as_unsigned 32 v /\
   byte_swap 8 (byte_swap 8 v) = as_unsigned 64 v).
Proof.
  assert (Hinv : forall n : nat,
             byte_swap n (byte_swap n v) = as_unsigned (8 * Z.of_nat n) v).
  { intros n. unfold byte_swap at 1.
    rewrite le_bytes_byte_swap, rev_involutive. apply le_value_le_bytes. }
  unfold Hasher_Mix_UInt8, Hasher_Mix_UInt16, Hasher_Mix_UInt32, Hasher_Mix_UInt64.
  rewrite !object_bytes_byte_swap, !object_bytes_1.
  repeat split; try apply byte_swap_range.
  - apply (Hinv 2%nat).
  - apply (Hinv 4%nat).
  - apply (Hinv 8%nat).
Qed.

(** ** The byte stream the object receives *)

Lemma mix_stream_length (host : endianness) (ms : list mix_call) :
  Z.of_nat (length (mix_stream host ms)) = fold_right Z.add 0 (map mix_size ms).
Proof.
  induction ms as [|m ms IH]; [reflexivity|].
  unfold mix_stream in *. simpl. rewrite length_app, Nat2Z.inj_add, IH.
  rewrite (mix_bytes_length host m). reflexivity.
Qed.

Lemma mix_stream_is_byte (host : endianness) (ms : list mix_call) :
  Forall is_byte (mix_stream host ms).
Proof.
  induction ms as [|m ms IH]; [constructor|].
  unfold mix_stream in *. simpl. apply Forall_app. split; [|exact IH].
  apply mix_bytes_is_byte.
Qed.

(** Without an [Init] among them, calls only add the bytes of their mixing
    calls to what the object was handed. *)
Lemma bytes_after_calls (host : endianness) (cs : list call) :
  forall acc : list Z,
    existsb is_init cs = false ->
    fold_left
      (fun acc r =>
         match r with
         | Recorder.Got_Init _ _ => []
         | Recorder.Got_Update message => acc ++ message
         end)
      (concat (map (Recorder.asked host) cs)) acc
    = acc ++ mix_stream host (mix_calls_of cs).
Proof.
  induction cs as [|c cs IH]; intros acc Hinit.
  - simpl. rewrite app_nil_r. reflexivity.
  - simpl in Hinit. apply orb_false_iff in Hinit. destruct Hinit as [Hc Hcs].
    destruct c; [discriminate Hc| |].
    + simpl. rewrite IH by exact Hcs. unfold mix_stream. simpl.
      rewrite <- app_assoc. reflexivity.
    + simpl. apply IH. exact Hcs.
Qed.

(** X3: whatever was called before, after a [Hasher_Init] followed by calls
    with no further [Hasher_Init], the bytes the object was handed since its
    [Init] are the bytes of the mixing calls, in order: earlier calls and
    [Hasher_Final] calls contribute nothing.  Their number is the sum of the
    sizes of the values mixed, and each is a byte. *)
Theorem run_bytes_since_init (host : endianness) (log : list Recorder.received)
    (before after : list call) :
  existsb is_init after = false ->
  bytes_since_init (fst (run host log (before ++ Call_Init :: after))) =
    mix_stream host (mix_calls_of after) /\
  Z.of_nat (length (bytes_since_init (fst (run host log (before ++ Call_Init :: after))))) =
    fold_right Z.add 0 (map mix_size (mix_calls_of after)) /\
  Forall is_byte (bytes_since_init (fst (run host log (before ++ Call_Init :: after)))).
Proof.
  intros Hinit.
  assert (Hbytes : bytes_since_init (fst (run host log (before ++ Call_Init :: after))) =
                   mix_stream host (mix_calls_of after)).
  { rewrite run_asked, map_app, concat_app. simpl map. simpl concat.
    unfold bytes_since_init. rewrite !fold_left_app. simpl fold_left.
    rewrite (bytes_after_calls host after [] Hinit). reflexivity. }
  rewrite Hbytes. split; [reflexivity|]. split.
  - apply mix_stream_length.
  - apply mix_stream_is_byte.
Qed.

(** A run with mixing before the [Hasher_Init], and a [Hasher_Final] between
    two mixing calls after it. *)
Lemma run_bytes_since_init_sample :
  bytes_since_init
    (fst (run Little [] ([Call_Mix (Mix_UInt8 9)] ++
                         Call_Init :: [Call_Mix (Mix_UInt16 0x0201); Call_Final;
                                       Call_Mix (Mix_Int8 (-1))]))) =
    mix_stream Little
      (mix_calls_of [Call_Mix (Mix_UInt16 0x0201); Call_Final; Call_Mix (Mix_Int8 (-1))]) /\
  Z.of_nat (length (bytes_since_init
    (fst (run Little [] ([Call_Mix (Mix_UInt8 9)] ++
                         Call_Init :: [Call_Mix (Mix_UInt16 0x0201); Call_Final;
                                       Call_Mix (Mix_Int8 (-1))]))))) =
    fold_right Z.add 0
      (map mix_size
         (mix_calls_of [Call_Mix (Mix_UInt16 0x0201); Call_Final; Call_Mix (Mix_Int8 (-1))])) /\
  Forall is_byte (bytes_since_init
    (fst (run Little [] ([Call_Mix (Mix_UInt8 9)] ++
                         Call_Init :: [Call_Mix (Mix_UInt16 0x0201); Call_Final;
                                       Call_Mix (Mix_Int8 (-1))])))).
Proof.
  apply (run_bytes_since_init Little [] [Call_Mix (Mix_UInt8 9)]
           [Call_Mix (Mix_UInt16 0x0201); Call_Final; Call_Mix (Mix_Int8 (-1))]).
  reflexivity.
Defined.

(** ** One value at several widths *)





(** ** One value in several calls *)


